(** * wssrv: the channel registry and broadcast relay of the signaling server

    A shallow embedding of [src/wssrv.go].  The Go program keeps one global
    map [connections] from channel codes to slices of connection pointers;
    every websocket connection is served by one run of [WsHandler], which
    loops over the decoded requests of its connection and switches on the
    request's command.

    What the library code around the handler does is taken by its contract:
    - [rand.Intn n] yields a number below [n]; the source of numbers is the
      function [draw], read at an increasing position kept in the world;
    - [websocket.JSON.Receive] fills the handler's variable [data] or
      reports [io.EOF] or another error: the handler's input is the list of
      these results ([Received], used by [WsHandler]); how the variable is
      filled from the message that arrived, field by field, is [unmarshal]
      (used by [handlerLoop]);
    - [websocket.JSON.Send] is recorded in the world's log of sent frames
      (the handler ignores its result);
    - [ws.Close] is recorded in the world's set of closed connections and
      may report an error, given by [closeFails];
    - the log lines ([log.Printf], [fmt.Printf]) are left out. *)

From stdpp Require Import gmap strings list fin_maps.
From Stdlib Require Import Ascii String.

Open Scope string_scope.
Open Scope list_scope.
Open Scope nat_scope.

(** ** Data model *)

(** A [*websocket.Conn]: the handler compares connections by pointer
    identity only, so a connection is its identity. *)
Abbreviation Conn := nat (only parsing).

(** [type Request struct] *)
Record Request := mkRequest {
  Command : string;
  Channel : string;
  Data : string
}.

(** [type RequestChannelIdResponse struct] *)
Record RequestChannelIdResponse := mkRequestChannelIdResponse {
  ChannelId : string
}.

(** What [websocket.JSON.Send] is called with: the handler sends either a
    channel-id response or the request it has just received. *)
Inductive Frame :=
| FResponse (r : RequestChannelIdResponse)
| FRequest (r : Request).

(** What one call of [websocket.JSON.Receive(ws,&data)] gives: the decoded
    [data] with a nil error, [io.EOF], or another error. *)
Inductive Received :=
| Decoded (data : Request)
| EOF
| RecvError (e : string).

(** How a run of [WsHandler] ends. *)
Inductive Exit :=
| Returned
| Panicked (msg : string).

(** Control after one pass through the body of the handler's [for]. *)
Inductive Ctl :=
| Continue
| Stop (e : Exit).

#[global] Instance Request_eq_dec : EqDecision Request.
Proof. solve_decision. Defined.
#[global] Instance Response_eq_dec : EqDecision RequestChannelIdResponse.
Proof. solve_decision. Defined.
#[global] Instance Frame_eq_dec : EqDecision Frame.
Proof. solve_decision. Defined.
#[global] Instance Exit_eq_dec : EqDecision Exit.
Proof. solve_decision. Defined.

(** The state shared by all handlers, and the record of their effects. *)
Record World := mkWorld {
  connections : gmap string (list Conn);  (* [var connections] *)
  rngPos : nat;                           (* numbers drawn so far *)
  sent : list (Conn * Frame);             (* calls of [JSON.Send], in order *)
  closed : gset Conn;                     (* connections [ws.Close] was called on *)
  exits : gmap Conn Exit                  (* handlers that have ended *)
}.

Definition initWorld : World := mkWorld ∅ 0 [] ∅ ∅.

Definition setConnections (m : gmap string (list Conn)) (w : World) : World :=
  mkWorld m (rngPos w) (sent w) (closed w) (exits w).
Definition setRngPos (p : nat) (w : World) : World :=
  mkWorld (connections w) p (sent w) (closed w) (exits w).
Definition setExit (c : Conn) (e : Exit) (w : World) : World :=
  mkWorld (connections w) (rngPos w) (sent w) (closed w) (<[c:=e]> (exits w)).

(** [connections[code]]: reading a key that is absent gives the nil slice
    and does not add the key. *)
Definition members (code : string) (m : gmap string (list Conn)) : list Conn :=
  default [] (m !! code).

(** [websocket.JSON.Send(conn, f)], result ignored. *)
Definition JSONSend (conn : Conn) (f : Frame) (w : World) : World :=
  mkWorld (connections w) (rngPos w) (sent w ++ [(conn, f)]) (closed w) (exits w).

(** ** Constants *)

Definition letters : string := "ABCDEFGHIJKLMNOPQRSTUVWXYZ".
Definition generateChannelIdLength : nat := 4.
Definition generateMaxTries : nat := 20.

(** [letters[k]] *)
Definition letterAt (k : nat) : ascii :=
  nth k (list_ascii_of_string letters) Ascii.zero.

(** An uppercase letter of the alphabet A-Z. *)
Definition isUpper (a : ascii) : bool :=
  (65 <=? nat_of_ascii a) && (nat_of_ascii a <=? 90).

Section Server.

(** The sequence of numbers behind [math/rand]. *)
Variable draw : nat → nat.
(** Whether [ws.Close()] reports an error. *)
Variable closeFails : Conn → bool.

(** ** generateChannelId *)

(** [rand.Intn(n)] at position [pos] of the source. *)
Definition Intn (n pos : nat) : nat * nat := (draw pos mod n, S pos).

(** [for i := range id { id[i] = letters[rand.Intn(len(letters))] }]:
    the bytes of [id] in index order, and the position after. *)
Fixpoint fillId (n pos : nat) : list ascii * nat :=
  match n with
  | 0 => ([], pos)
  | S n' =>
      let '(k, pos1) := Intn (String.length letters) pos in
      let '(rest, pos2) := fillId n' pos1 in
      (letterAt k :: rest, pos2)
  end.

(** The code drawn in the pass that starts at position [pos]. *)
Definition candidate (pos : nat) : string :=
  string_of_list_ascii (fillId generateChannelIdLength pos).1.

(** The [for try:=0; try<generateMaxTries; try++] loop with [tries]
    passes left; the result is [(id, err)] and the position after. *)
Fixpoint generateTries (tries : nat) (m : gmap string (list Conn)) (pos : nat)
  : string * bool * nat :=
  match tries with
  | 0 => ("", true, pos)
  | S t =>
      let '(id, pos1) := fillId generateChannelIdLength pos in
      match m !! string_of_list_ascii id with
      | None => (string_of_list_ascii id, false, pos1)
      | Some _ => generateTries t m pos1
      end
  end.

Definition generateChannelId (m : gmap string (list Conn)) (pos : nat)
  : string * bool * nat :=
  generateTries generateMaxTries m pos.

(** ** WsHandler *)

(** [case "send"]: the [range] over the member slice, sending [data] to
    every entry that is not [ws] itself. *)
Fixpoint sendAll (ws : Conn) (data : Request) (l : list Conn) (w : World) : World :=
  match l with
  | [] => w
  | conn :: rest =>
      sendAll ws data rest
        (if decide (conn ≠ ws) then JSONSend conn (FRequest data) w else w)
  end.

(** [switch data.Command].  The string of [Panicked] names the place of the
    panic; it is not the value the program panics with, which is that text
    formatted with the remote address before it and, for an unknown command,
    the dump of [data] after it. *)
Definition switchCommand (ws : Conn) (data : Request) (w : World) : World * Ctl :=
  if String.eqb (Command data) "" then
    (w, Continue)
  else if String.eqb (Command data) "requestChannelId" then
    let '(channelId, err, pos') := generateChannelId (connections w) (rngPos w) in
    let w1 := setRngPos pos' w in
    if err then
      (w1, Stop (Panicked "could not generate channel id"))
    else
      let w2 := setConnections (<[channelId := []]> (connections w1)) w1 in
      (JSONSend ws (FResponse (mkRequestChannelIdResponse channelId)) w2, Continue)
  else if String.eqb (Command data) "connectChannel" then
    (setConnections
       (<[Channel data := members (Channel data) (connections w) ++ [ws]]>
          (connections w)) w,
     Continue)
  else if String.eqb (Command data) "send" then
    (sendAll ws data (members (Channel data) (connections w)) w, Continue)
  else
    (w, Stop (Panicked "Unhandled message")).

(** One pass through the body of the handler's [for]: the [switch] on the
    result of [Receive], then the [switch] on the command. *)
Definition iteration (ws : Conn) (r : Received) (w : World) : World * Ctl :=
  match r with
  | EOF => (w, Stop Returned)
  | RecvError e => (w, Stop (Panicked e))
  | Decoded data => switchCommand ws data w
  end.

(** The deferred function: it closes [ws], and panics when that fails.
    It runs when the handler returns and when it panics.  The string of
    [Panicked] names the place of the panic; the program's value has the
    remote address before it and the error of [Close] after it. *)
Definition cleanup (ws : Conn) (e : Exit) (w : World) : World * Exit :=
  let w' := mkWorld (connections w) (rngPos w) (sent w) ({[ws]} ∪ closed w) (exits w) in
  if closeFails ws then (w', Panicked "cleanup could not close connecteion")
  else (w', e).

(** [WsHandler(ws)] on the results of its successive [Receive] calls.
    [None]: the inputs are used up and the handler waits in [Receive]. *)
Fixpoint WsHandler (ws : Conn) (inputs : list Received) (w : World)
  : World * option Exit :=
  match inputs with
  | [] => (w, None)
  | r :: rest =>
      match iteration ws r w with
      | (w', Continue) => WsHandler ws rest w'
      | (w', Stop e) => let '(w'', e') := cleanup ws e w' in (w'', Some e')
      end
  end.

(** ** Several connections

    Every connection has its own run of [WsHandler]; the runs share
    [connections].  The program takes no lock; the runs are interleaved
    here at whole passes of the loop body.  A run that has ended is noted
    in [exits] and receives nothing more.  A return or a panic ends the run
    it occurs in: the handler has no [recover], and the HTTP server that
    calls it serves each connection in a goroutine of its own, where it
    recovers the panic of a handler.  [serve] describes the runs in which
    the passes of different handlers do not overlap in time; of runs in
    which two passes read and write [connections] at once it says nothing. *)
Definition deliver (c : Conn) (r : Received) (w : World) : World :=
  match exits w !! c with
  | Some _ => w
  | None =>
      match iteration c r w with
      | (w', Continue) => w'
      | (w', Stop e) => let '(w'', e') := cleanup c e w' in setExit c e' w''
      end
  end.

Definition serve (evs : list (Conn * Received)) (w : World) : World :=
  foldl (λ w ev, deliver ev.1 ev.2 w) w evs.

End Server.

(** ** The request variable

    [var data Request] is declared once, before the loop, and every
    [websocket.JSON.Receive(ws,&data)] decodes into it.  The JSON decoder
    sets the fields the message has and leaves the other fields as they
    are, so a field that a message omits keeps the value an earlier message
    of the connection gave it. *)

(** A message as it arrives: the fields of [Request] its JSON object has. *)
Record Message := mkMessage {
  msgCmd : option string;
  msgChannel : option string;
  msgData : option string
}.

(** The message that has all three fields, with the values of [r]. *)
Definition fullMessage (r : Request) : Message :=
  mkMessage (Some (Command r)) (Some (Channel r)) (Some (Data r)).

(** The message [{}]. *)
Definition emptyMessage : Message := mkMessage None None None.

(** Decoding message [m] into the variable [data]. *)
Definition unmarshal (m : Message) (data : Request) : Request :=
  mkRequest (default (Command data) (msgCmd m))
            (default (Channel data) (msgChannel m))
            (default (Data data) (msgData m)).

(** What a connection brings: a message, its end, or bytes that do not
    decode. *)
Inductive Incoming :=
| Arrived (m : Message)
| Disconnected
| Broken (e : string).

(** [err := websocket.JSON.Receive(ws,&data)]: the result the handler
    switches on, and [data] after the call. *)
Definition receive (i : Incoming) (data : Request) : Received * Request :=
  match i with
  | Arrived m => (Decoded (unmarshal m data), unmarshal m data)
  | Disconnected => (EOF, data)
  | Broken e => (RecvError e, data)
  end.

(** The handler's [for] loop with its variable [data], on what the
    connection brings. *)
Fixpoint handlerLoop (draw : nat → nat) (closeFails : Conn → bool) (ws : Conn)
    (data : Request) (inputs : list Incoming) (w : World) : World * option Exit :=
  match inputs with
  | [] => (w, None)
  | i :: rest =>
      let '(r, data') := receive i data in
      match iteration draw ws r w with
      | (w', Continue) => handlerLoop draw closeFails ws data' rest w'
      | (w', Stop e) => let '(w'', e') := cleanup closeFails ws e w' in (w'', Some e')
      end
  end.

(** The results of the successive [Receive] calls of a handler whose
    request variable holds [data], on what the connection brings. *)
Fixpoint receiveAll (data : Request) (inputs : list Incoming) : list Received :=
  match inputs with
  | [] => []
  | i :: rest => let '(r, data') := receive i data in r :: receiveAll data' rest
  end.

(** [WsHandler(ws)] from its start: [data] has the zero value of [Request]. *)
Definition WsHandlerFrames (draw : nat → nat) (closeFails : Conn → bool) (ws : Conn)
    (inputs : list Incoming) (w : World) : World * option Exit :=
  handlerLoop draw closeFails ws (mkRequest "" "" "") inputs w.

(** The frames sent between world [w] and a later world [w']. *)
Definition emitted (w w' : World) : list (Conn * Frame) :=
  drop (List.length (sent w)) (sent w').

(** How many times frame [f] was sent to connection [c] in [log]. *)
Definition deliveries (c : Conn) (f : Frame) (log : list (Conn * Frame)) : nat :=
  List.length (filter (λ p, p = (c, f)) log).

(** The channels that list connection [c] as a member: the only record
    the program keeps of the channel of a connection. *)
Definition channelsOf (c : Conn) (m : gmap string (list Conn)) : gset string :=
  dom (filter (λ kv, c ∈ kv.2) m).

(** World [w] with connection [c] closed and its handler ended by [e]. *)
Definition withEnded (c : Conn) (e : Exit) (w : World) : World :=
  mkWorld (connections w) (rngPos w) (sent w) ({[c]} ∪ closed w) (<[c:=e]> (exits w)).

(** The requests of the protocol. *)
Definition reqRequestChannelId : Request := mkRequest "requestChannelId" "" "".
Definition reqConnect (code : string) : Request := mkRequest "connectChannel" code "".
Definition reqSend (code payload : string) : Request := mkRequest "send" code payload.

(** Numbers and close results for concrete runs: every draw is 0 (so every code
    drawn is AAAA), or the draws are 0, 7, 14, ... (the first code drawn is
    AHOV); closing never fails. *)
Definition drawZero : nat → nat := λ _, 0.
Definition drawSevens : nat → nat := λ k, k * 7.
Definition closeOk : Conn → bool := λ _, false.

(** The channel code a sent frame hands out, when it is a channel-id
    response. *)
Definition responseCode (p : Conn * Frame) : option string :=
  match p.2 with
  | FResponse r => Some (ChannelId r)
  | FRequest _ => None
  end.

(** The codes handed out by the responses of a log of sent frames, in order. *)
Definition handedOut (log : list (Conn * Frame)) : list string :=
  omap responseCode log.

(** How often connection [c] occurs in a member list. *)
Definition occurrences (c : Conn) (l : list Conn) : nat :=
  List.length (filter (λ x, x = c) l).

(** What one step of a handler can do to the registry and to the log of
    sent frames: nothing; register a fresh code and answer the requester;
    add the connection at the end of one member list; forward a [send]
    request along one member list. *)
Inductive StepEffect (c : Conn) (r : Received) (w v : World) : Prop :=
| step_nothing :
    connections v = connections w → sent v = sent w → StepEffect c r w v
| step_request data code :
    r = Decoded data → Command data = "requestChannelId" →
    connections w !! code = None →
    String.length code = 4 →
    Forall (λ a, isUpper a = true ∧ a ∈ list_ascii_of_string letters)
      (list_ascii_of_string code) →
    connections v = <[code := []]> (connections w) →
    sent v = sent w ++ [(c, FResponse (mkRequestChannelIdResponse code))] →
    StepEffect c r w v
| step_connect data :
    r = Decoded data → Command data = "connectChannel" →
    connections v
    = <[Channel data := members (Channel data) (connections w) ++ [c]]> (connections w) →
    sent v = sent w →
    StepEffect c r w v
| step_send data :
    r = Decoded data → Command data = "send" →
    connections v = connections w →
    sent v = sent w ++ ((λ x, (x, FRequest data))
                          <$> filter (λ x, x ≠ c) (members (Channel data) (connections w))) →
    StepEffect c r w v.

(** Whether a result of [Receive] leaves a [connectChannel] request for
    [code] in the request variable, and how many results of a list do. *)
Definition isJoinPass (code : string) (r : Received) : bool :=
  match r with
  | Decoded d => String.eqb (Command d) "connectChannel" && String.eqb (Channel d) code
  | _ => false
  end.

Definition joinPasses (code : string) (inputs : list Received) : nat :=
  List.length (filter (λ r, isJoinPass code r = true) inputs).

(** * Properties *)

(** ** The generator *)

Lemma letterAt_upper k : k < String.length letters → isUpper (letterAt k) = true.
Proof.
  intros Hk.
  assert (Hall : forallb (λ i, isUpper (letterAt i)) (seq 0 (String.length letters)) = true)
    by (vm_compute; reflexivity).
  rewrite forallb_forall in Hall. apply Hall, in_seq. lia.
Qed.

Lemma letterAt_letters k :
  k < String.length letters → letterAt k ∈ list_ascii_of_string letters.
Proof.
  intros Hk. apply list_elem_of_In, nth_In.
  change (String.length letters) with 26 in Hk. vm_compute. lia.
Qed.

Lemma length_string_of_list_ascii (l : list ascii) :
  String.length (string_of_list_ascii l) = List.length l.
Proof. induction l as [|a l IH]; simpl; [done | by rewrite IH]. Qed.

Section Generator.
Variable draw : nat → nat.

Lemma Intn_lt n pos : n ≠ 0 → (Intn draw n pos).1 < n.
Proof. intros Hn. simpl. apply Nat.mod_upper_bound. exact Hn. Qed.

Lemma fillId_spec n pos :
  List.length (fillId draw n pos).1 = n
  ∧ (fillId draw n pos).2 = pos + n
  ∧ Forall (λ a, isUpper a = true ∧ a ∈ list_ascii_of_string letters)
      (fillId draw n pos).1.
Proof.
  revert pos. induction n as [|n IH]; intros pos; simpl.
  - split; [done|]. split; [lia|]. constructor.
  - destruct (IH (S pos)) as (Hlen & Hpos & Hall).
    destruct (fillId draw n (S pos)) as [rest pos2]. simpl in *.
    split; [by rewrite Hlen|]. split; [lia|].
    constructor; [|exact Hall].
    assert (Hlt : draw pos mod 26 < String.length letters)
      by (apply Nat.mod_upper_bound; discriminate).
    split; [by apply letterAt_upper | by apply letterAt_letters].
Qed.

Lemma candidate_shape pos :
  String.length (candidate draw pos) = generateChannelIdLength
  ∧ Forall (λ a, isUpper a = true ∧ a ∈ list_ascii_of_string letters)
      (list_ascii_of_string (candidate draw pos)).
Proof.
  unfold candidate.
  destruct (fillId_spec generateChannelIdLength pos) as (Hlen & _ & Hall).
  rewrite list_ascii_of_string_of_list_ascii. split; [|exact Hall].
  by rewrite length_string_of_list_ascii.
Qed.

Lemma generateTries_spec tries m pos :
  ∃ k, k ≤ tries
    ∧ (generateTries draw tries m pos).2 = pos + generateChannelIdLength * k
    ∧ (∀ i, S i < k → is_Some (m !! candidate draw (pos + generateChannelIdLength * i)))
    ∧ match (generateTries draw tries m pos).1 with
      | (id, true) =>
          id = "" ∧ k = tries
          ∧ ∀ i, i < k → is_Some (m !! candidate draw (pos + generateChannelIdLength * i))
      | (id, false) =>
          1 ≤ k ∧ id = candidate draw (pos + generateChannelIdLength * (k - 1))
          ∧ m !! id = None
      end.
Proof.
  revert pos. induction tries as [|t IH]; intros pos.
  - exists 0. simpl. split; [lia|]. split; [lia|]. split; [intros; lia|].
    split; [done|]. split; [done|]. intros; lia.
  - cbn [generateTries].
    destruct (fillId_spec generateChannelIdLength pos) as (_ & Hpos & _).
    pose proof (eq_refl : candidate draw pos = candidate draw pos) as Hc.
    unfold candidate at 2 in Hc.
    destruct (fillId draw generateChannelIdLength pos) as [id pos1] eqn:Hfill.
    simpl in Hpos, Hc. subst pos1. rewrite <- Hc.
    destruct (m !! candidate draw pos) as [l|] eqn:Hlook.
    + destruct (IH (pos + generateChannelIdLength)) as (k & Hk & Hp & Hbefore & Hres).
      exists (S k). split; [lia|]. split; [rewrite Hp; lia|].
      assert (Hshift : ∀ i, pos + generateChannelIdLength * S i
                            = pos + generateChannelIdLength + generateChannelIdLength * i)
        by (intros; lia).
      split.
      { intros [|i] Hi.
        - rewrite Nat.mul_0_r, Nat.add_0_r. by rewrite Hlook.
        - rewrite Hshift. apply Hbefore. lia. }
      destruct (generateTries draw t m (pos + generateChannelIdLength)).1 as [id' [|]].
      * destruct Hres as (-> & -> & Hall). split; [done|]. split; [done|].
        intros [|i] Hi.
        -- rewrite Nat.mul_0_r, Nat.add_0_r. by rewrite Hlook.
        -- rewrite Hshift. apply Hall. lia.
      * destruct Hres as (Hk1 & -> & Hnone). split; [lia|].
        replace (pos + generateChannelIdLength * (S k - 1))
          with (pos + generateChannelIdLength + generateChannelIdLength * (k - 1))
          by (unfold generateChannelIdLength; lia).
        done.
    + exists 1. simpl. split; [lia|]. split; [unfold generateChannelIdLength; lia|].
      split; [intros; lia|]. split; [lia|].
      rewrite Nat.add_0_r. done.
Qed.

(** C2. Whatever the registry [m] and the numbers drawn, [generateChannelId]
    makes [k] passes with [1 <= k <= 20], each drawing 4 letters, and moves
    on to the next pass only when the code it drew is registered.  When it
    returns a code (err false), that code is not a key of [m], has exactly 4
    characters, and each of them is an uppercase letter of A-Z; it reports
    exhaustion (the empty code, err true) only after all 20 passes drew a
    registered code. *)
Theorem generateChannelId_fresh_4_upper_bounded (m : gmap string (list Conn)) (pos : nat) :
  ∃ k, 1 ≤ k ≤ generateMaxTries
    ∧ (generateChannelId draw m pos).2 = pos + generateChannelIdLength * k
    ∧ (∀ i, S i < k → is_Some (m !! candidate draw (pos + generateChannelIdLength * i)))
    ∧ match (generateChannelId draw m pos).1 with
      | (id, true) =>
          id = "" ∧ k = generateMaxTries
          ∧ ∀ i, i < generateMaxTries →
              is_Some (m !! candidate draw (pos + generateChannelIdLength * i))
      | (id, false) =>
          m !! id = None
          ∧ (∀ code, is_Some (m !! code) → id ≠ code)
          ∧ String.length id = 4
          ∧ Forall (λ a, isUpper a = true ∧ a ∈ list_ascii_of_string letters)
              (list_ascii_of_string id)
      end.
Proof.
  unfold generateChannelId.
  destruct (generateTries_spec generateMaxTries m pos) as (k & Hk & Hp & Hbefore & Hres).
  exists k. split.
  { split; [|exact Hk].
    destruct (generateTries draw generateMaxTries m pos).1 as [id [|]].
    - destruct Hres as (_ & -> & _). unfold generateMaxTries. lia.
    - by destruct Hres. }
  split; [exact Hp|]. split; [exact Hbefore|].
  destruct (generateTries draw generateMaxTries m pos).1 as [id [|]].
  - destruct Hres as (-> & -> & Hall). done.
  - destruct Hres as (_ & -> & Hnone).
    destruct (candidate_shape (pos + generateChannelIdLength * (k - 1))) as (Hlen & Hall).
    split; [exact Hnone|]. split.
    { intros code [l Hl] <-. congruence. }
    split; [exact Hlen | exact Hall].
Qed.

End Generator.

(** ** The handler *)

Lemma deliveries_forward c c' f (l : list Conn) :
  deliveries c f ((λ x, (x, f)) <$> filter (λ x, x ≠ c') l)
  = if decide (c = c') then 0 else List.length (filter (λ x, x = c) l).
Proof.
  unfold deliveries. induction l as [|x l IH]; simpl.
  - by case_decide.
  - rewrite (filter_cons (λ x, x ≠ c')), (filter_cons (λ x, x = c)).
    destruct (decide (x ≠ c')) as [Hx|Hx].
    + rewrite fmap_cons, filter_cons.
      destruct (decide ((x, f) = (c, f))) as [Heq|Hne]; cbn [List.length];
        rewrite IH; repeat case_decide; simplify_eq/=; done.
    + apply dec_stable in Hx. subst x. rewrite IH.
      repeat case_decide; simplify_eq/=; done.
Qed.

Lemma filter_eq_absent (c : Conn) (l : list Conn) :
  c ∉ l → filter (λ x, x = c) l = [].
Proof.
  induction l as [|x l IH]; intros Hc; [done|].
  apply not_elem_of_cons in Hc as [Hne Hc].
  rewrite filter_cons, decide_False by congruence. by apply IH.
Qed.

Lemma NoDup_occurs_once (c : Conn) (l : list Conn) :
  NoDup l → c ∈ l → List.length (filter (λ x, x = c) l) = 1.
Proof.
  induction 1 as [|x l Hx Hnd IH]; intros Hin.
  - by apply elem_of_nil in Hin.
  - rewrite filter_cons. destruct (decide (x = c)) as [->|Hne].
    + simpl. by rewrite filter_eq_absent.
    + apply elem_of_cons in Hin as [->|Hin]; [done|]. by apply IH.
Qed.

Lemma deliveries_absent c f (log : list (Conn * Frame)) :
  (c, f) ∉ log → deliveries c f log = 0.
Proof.
  unfold deliveries. induction log as [|p log IH]; intros Hp; [done|].
  apply not_elem_of_cons in Hp as [Hne Hp].
  rewrite filter_cons, decide_False by congruence. by apply IH.
Qed.



Lemma members_insert_eq code l (m : gmap string (list Conn)) :
  members code (<[code := l]> m) = l.
Proof. unfold members. by rewrite lookup_insert_eq. Qed.

Lemma members_insert_ne code code' l (m : gmap string (list Conn)) :
  code ≠ code' → members code' (<[code := l]> m) = members code' m.
Proof. intros H. unfold members. by rewrite lookup_insert_ne. Qed.

Section Handler.
Variable draw : nat → nat.
Variable closeFails : Conn → bool.

Lemma sendAll_spec ws data l w :
  sendAll ws data l w
  = mkWorld (connections w) (rngPos w)
      (sent w ++ ((λ c, (c, FRequest data)) <$> filter (λ c, c ≠ ws) l))
      (closed w) (exits w).
Proof.
  revert w. induction l as [|conn l IH]; intros w; simpl.
  - rewrite app_nil_r. by destruct w.
  - rewrite IH, filter_cons. destruct (decide (conn ≠ ws)); simpl; [|done].
    by rewrite <- app_assoc.
Qed.

Lemma switchCommand_empty ws data w :
  Command data = "" → switchCommand draw ws data w = (w, Continue).
Proof. intros H. unfold switchCommand. by rewrite H. Qed.

Lemma switchCommand_request ws data w :
  Command data = "requestChannelId" →
  switchCommand draw ws data w =
    let '(channelId, err, pos') := generateChannelId draw (connections w) (rngPos w) in
    if err then
      (setRngPos pos' w, Stop (Panicked "could not generate channel id"))
    else
      (mkWorld (<[channelId := []]> (connections w)) pos'
         (sent w ++ [(ws, FResponse (mkRequestChannelIdResponse channelId))])
         (closed w) (exits w),
       Continue).
Proof.
  intros H. unfold switchCommand. rewrite H. cbn [String.eqb Ascii.eqb Bool.eqb].
  destruct (generateChannelId draw (connections w) (rngPos w)) as [[id err] pos'].
  by destruct err.
Qed.

Lemma switchCommand_connect ws data w :
  Command data = "connectChannel" →
  switchCommand draw ws data w =
    (setConnections
       (<[Channel data := members (Channel data) (connections w) ++ [ws]]>
          (connections w)) w,
     Continue).
Proof. intros H. unfold switchCommand. by rewrite H. Qed.

Lemma switchCommand_send ws data w :
  Command data = "send" →
  switchCommand draw ws data w =
    (mkWorld (connections w) (rngPos w)
       (sent w ++ ((λ c, (c, FRequest data))
                     <$> filter (λ c, c ≠ ws) (members (Channel data) (connections w))))
       (closed w) (exits w),
     Continue).
Proof. intros H. unfold switchCommand. rewrite H. simpl. by rewrite sendAll_spec. Qed.

Lemma switchCommand_unknown ws data w :
  Command data ≠ "" → Command data ≠ "requestChannelId" →
  Command data ≠ "connectChannel" → Command data ≠ "send" →
  switchCommand draw ws data w = (w, Stop (Panicked "Unhandled message")).
Proof.
  intros H1 H2 H3 H4. unfold switchCommand.
  by rewrite (proj2 (String.eqb_neq _ _) H1), (proj2 (String.eqb_neq _ _) H2),
    (proj2 (String.eqb_neq _ _) H3), (proj2 (String.eqb_neq _ _) H4).
Qed.

Lemma iteration_exits ws r w : exits (iteration draw ws r w).1 = exits w.
Proof.
  destruct r as [data| |e]; [|done..]. simpl. unfold switchCommand.
  repeat case_match; try done. simpl. by rewrite sendAll_spec.
Qed.

Lemma cleanup_connections ws e w :
  connections (cleanup closeFails ws e w).1 = connections w.
Proof. unfold cleanup. by destruct (closeFails ws). Qed.

Lemma serve_cons c r evs w :
  serve draw closeFails ((c, r) :: evs) w
  = serve draw closeFails evs (deliver draw closeFails c r w).
Proof. done. Qed.

Lemma deliver_ended c r w :
  is_Some (exits w !! c) → deliver draw closeFails c r w = w.
Proof. intros [e He]. unfold deliver. by rewrite He. Qed.

Lemma serve_ended ws inputs w :
  is_Some (exits w !! ws) → serve draw closeFails (map (pair ws) inputs) w = w.
Proof.
  intros Hend. induction inputs as [|r rest IH]; [done|].
  cbn [map]. by rewrite serve_cons, deliver_ended.
Qed.

(** A run of [WsHandler] and the steps of [serve] for one connection are
    the same computation. *)
Lemma serve_WsHandler ws inputs w :
  exits w !! ws = None →
  serve draw closeFails (map (pair ws) inputs) w =
    match WsHandler draw closeFails ws inputs w with
    | (w', None) => w'
    | (w', Some e) => setExit ws e w'
    end.
Proof.
  revert w. induction inputs as [|r rest IH]; intros w Hrun; [done|].
  cbn [map WsHandler]. rewrite serve_cons. unfold deliver. rewrite Hrun.
  pose proof (iteration_exits ws r w) as Hex.
  destruct (iteration draw ws r w) as [w1 [|e]]; simpl in Hex.
  - apply IH. by rewrite Hex.
  - destruct (cleanup closeFails ws e w1) as [w2 e2].
    apply serve_ended. simpl. rewrite lookup_insert_eq. by eexists.
Qed.

(** *** send *)

(** C1, as the code has it.  Let [data] be the request variable after a
    message whose cmd is [send] has been decoded into it: the fields the
    message has, and for a field it omits the value the variable had before,
    so it is the message itself when the message has all three fields.  Let
    [M] be the member list of the channel [data] names.  The pass through
    the loop body sends [data] to every member of [M] other than the
    sender, once for each time [M] lists the member, hence exactly once each
    when [M] lists no connection twice; it sends nothing to the sender;
    every frame it sends is [data], unchanged; and the handler goes on. *)
Theorem send_forwards_request_variable ws prev m w :
  msgCmd m = Some "send" →
  let data := unmarshal m prev in
  let M := members (Channel data) (connections w) in
  let out := iteration draw ws (receive (Arrived m) prev).1 w in
  out.2 = Continue
  ∧ (∀ c, c ∈ M → c ≠ ws → (c, FRequest data) ∈ emitted w out.1)
  ∧ (∀ c, c ≠ ws → deliveries c (FRequest data) (emitted w out.1) = occurrences c M)
  ∧ (NoDup M → ∀ c, c ∈ M → c ≠ ws →
       deliveries c (FRequest data) (emitted w out.1) = 1)
  ∧ (∀ f, deliveries ws f (emitted w out.1) = 0)
  ∧ (∀ c f, (c, f) ∈ emitted w out.1 → f = FRequest data ∧ c ∈ M ∧ c ≠ ws)
  ∧ data = mkRequest "send" (default (Channel prev) (msgChannel m))
                     (default (Data prev) (msgData m))
  ∧ (∀ r, m = fullMessage r → data = r).
Proof.
  intros Hm data M out.
  assert (Hdata : data = mkRequest "send" (default (Channel prev) (msgChannel m))
                           (default (Data prev) (msgData m))).
  { subst data. unfold unmarshal. by rewrite Hm. }
  assert (Hcmd : Command data = "send") by (by rewrite Hdata).
  subst out. cbn [receive fst iteration]. fold data.
  rewrite (switchCommand_send _ _ _ Hcmd). cbn [fst snd]. fold M.
  unfold emitted; cbn [sent]; rewrite drop_app_length.
  assert (Hin : ∀ c f,
    (c, f) ∈ (λ c, (c, FRequest data)) <$> filter (λ c, c ≠ ws) M →
    f = FRequest data ∧ c ∈ M ∧ c ≠ ws).
  { intros c f (x & [= -> ->] & Hx)%list_elem_of_fmap.
    apply list_elem_of_filter in Hx as [Hne Hx]. done. }
  assert (Hcount : ∀ c, c ≠ ws →
    deliveries c (FRequest data) ((λ c, (c, FRequest data)) <$> filter (λ c, c ≠ ws) M)
    = occurrences c M).
  { intros c Hne. by rewrite deliveries_forward, decide_False. }
  split; [done|]. split.
  { intros c Hc Hne. apply list_elem_of_fmap. exists c. split; [done|].
    by apply list_elem_of_filter. }
  split; [exact Hcount|]. split.
  { intros Hnd c Hc Hne. rewrite Hcount by done. by apply NoDup_occurs_once. }
  split.
  { intros f. apply deliveries_absent. intros H%Hin. by destruct H as (_ & _ & ?). }
  split; [exact Hin|]. split; [exact Hdata|].
  intros r ->. subst data. unfold unmarshal, fullMessage. simpl. by destruct r.
Qed.

(** C9.  A [send] request that names a code which is not a key of
    [connections] changes nothing: no frame is sent, the registry and the
    rest of the world stay as they were, and the handler goes on to its
    next [Receive]. *)
Theorem send_unregistered_noop ws data w :
  Command data = "send" →
  connections w !! Channel data = None →
  iteration draw ws (Decoded data) w = (w, Continue).
Proof.
  intros Hcmd Hnone. cbn [iteration]. rewrite (switchCommand_send _ _ _ Hcmd).
  unfold members. rewrite Hnone. simpl. rewrite app_nil_r. by destruct w.
Qed.

(** C10.  The frames a [send] request of connection [ws] causes are the
    request itself, once for every entry of the named channel's member list
    that is not [ws], in list order; the registry is not changed.  Whether
    [ws] is in that list plays no part: when it is not, every entry gets the
    request, and two worlds whose member lists for the channel agree once
    the entries equal to [ws] are dropped give the same frames. *)
Theorem send_recipients_from_member_list ws data w :
  Command data = "send" →
  let out := iteration draw ws (Decoded data) w in
  let recipients := filter (λ c, c ≠ ws) (members (Channel data) (connections w)) in
  emitted w out.1 = (λ c, (c, FRequest data)) <$> recipients
  ∧ connections out.1 = connections w
  ∧ (ws ∉ members (Channel data) (connections w) →
       emitted w out.1
       = (λ c, (c, FRequest data)) <$> members (Channel data) (connections w))
  ∧ (∀ w2,
       filter (λ c, c ≠ ws) (members (Channel data) (connections w2)) = recipients →
       emitted w2 (iteration draw ws (Decoded data) w2).1 = emitted w out.1).
Proof.
  intros Hcmd out recipients. subst out recipients. cbn [iteration].
  rewrite (switchCommand_send _ _ _ Hcmd). cbn [fst snd].
  unfold emitted; cbn [sent]; rewrite drop_app_length.
  split; [done|]. split; [done|]. split.
  - intros Hnot. f_equal.
    induction (members (Channel data) (connections w)) as [|x l IH]; [done|].
    apply not_elem_of_cons in Hnot as [Hne Hnot].
    rewrite filter_cons, decide_True by congruence. f_equal. by apply IH.
  - intros w2 Hsame. rewrite (switchCommand_send _ _ _ Hcmd). cbn [fst].
    unfold emitted; cbn [sent]; rewrite drop_app_length. by rewrite Hsame.
Qed.

(** *** connectChannel *)


(** *** requestChannelId *)

Lemma generateChannelId_ok m pos id pos' :
  generateChannelId draw m pos = (id, false, pos') →
  m !! id = None ∧ String.length id = 4
  ∧ Forall (λ a, isUpper a = true ∧ a ∈ list_ascii_of_string letters)
      (list_ascii_of_string id).
Proof.
  intros Hgen. unfold generateChannelId in Hgen.
  destruct (generateTries_spec draw generateMaxTries m pos) as (k & _ & _ & _ & Hres).
  rewrite Hgen in Hres. cbn [fst] in Hres. destruct Hres as (_ & -> & Hnone).
  split; [exact Hnone|]. apply candidate_shape.
Qed.

(** C8.  When the generator returns a code during a [requestChannelId]
    request, the handler stores the empty member list under that code, sends
    the requester one frame, the response whose [cid] is the code, and goes
    on; the code was not registered before and is 4 uppercase letters. *)
Theorem requestChannelId_registers_and_replies ws data w code pos' :
  Command data = "requestChannelId" →
  generateChannelId draw (connections w) (rngPos w) = (code, false, pos') →
  iteration draw ws (Decoded data) w
  = (mkWorld (<[code := []]> (connections w)) pos'
       (sent w ++ [(ws, FResponse (mkRequestChannelIdResponse code))])
       (closed w) (exits w),
     Continue)
  ∧ connections w !! code = None
  ∧ String.length code = 4
  ∧ Forall (λ a, isUpper a = true ∧ a ∈ list_ascii_of_string letters)
      (list_ascii_of_string code).
Proof.
  intros Hcmd Hgen. cbn [iteration].
  rewrite (switchCommand_request _ _ _ Hcmd), Hgen.
  split; [done|]. by apply generateChannelId_ok in Hgen.
Qed.

(** *** Ending a handler *)

Lemma iteration_withEnded c e c' r w :
  iteration draw c' r (withEnded c e w)
  = (withEnded c e (iteration draw c' r w).1, (iteration draw c' r w).2).
Proof.
  destruct r as [data| |msg]; [|done..]. cbn [iteration]. unfold switchCommand.
  cbn [withEnded connections rngPos].
  repeat case_match; simplify_eq; try done.
  cbn [fst snd]. by rewrite !sendAll_spec.
Qed.

Lemma deliver_withEnded c e c' r w :
  c' ≠ c →
  deliver draw closeFails c' r (withEnded c e w)
  = withEnded c e (deliver draw closeFails c' r w).
Proof.
  intros Hne. unfold deliver. cbn [withEnded exits].
  rewrite lookup_insert_ne by done.
  destruct (exits w !! c') as [e'|]; [done|].
  rewrite iteration_withEnded.
  destruct (iteration draw c' r w) as [v [|e']]; cbn [fst snd]; [done|].
  unfold cleanup. destruct (closeFails c'); unfold setExit, withEnded; simpl;
    (f_equal; [|by apply insert_insert_ne]);
    apply set_eq; intros x; rewrite !elem_of_union; tauto.
Qed.

Lemma serve_withEnded c e evs w :
  Forall (λ ev, ev.1 ≠ c) evs →
  serve draw closeFails evs (withEnded c e w)
  = withEnded c e (serve draw closeFails evs w).
Proof.
  intros Hall. revert w. induction Hall as [|[c' r] evs Hne _ IH]; intros w; [done|].
  rewrite !serve_cons, deliver_withEnded by done. apply IH.
Qed.

Lemma deliver_stop c r w v e :
  exits w !! c = None →
  iteration draw c r w = (v, Stop e) →
  deliver draw closeFails c r w
  = withEnded c (if closeFails c then Panicked "cleanup could not close connecteion"
                 else e) v.
Proof.
  intros Hrun Hit. unfold deliver. rewrite Hrun, Hit. unfold cleanup.
  by destruct (closeFails c).
Qed.

(** C5.  A request whose command is none of the four the handler knows makes
    the handler of the connection it came from panic; the deferred function
    closes that connection.  That is the whole effect: the registry, the
    frames sent, the numbers drawn and the state of every other handler are
    as before, and whatever the other connections receive afterwards is
    handled exactly as it would have been without that request. *)
Theorem unknown_command_ends_only_offender c data w :
  Command data ≠ "" → Command data ≠ "requestChannelId" →
  Command data ≠ "connectChannel" → Command data ≠ "send" →
  exits w !! c = None →
  ∃ msg,
    deliver draw closeFails c (Decoded data) w = withEnded c (Panicked msg) w
    ∧ (∀ c', c' ≠ c →
         exits (deliver draw closeFails c (Decoded data) w) !! c' = exits w !! c')
    ∧ (∀ evs, Forall (λ ev, ev.1 ≠ c) evs →
         serve draw closeFails evs (deliver draw closeFails c (Decoded data) w)
         = withEnded c (Panicked msg) (serve draw closeFails evs w)).
Proof.
  intros H1 H2 H3 H4 Hrun.
  pose proof (deliver_stop c (Decoded data) w w _ Hrun
                (switchCommand_unknown c data w H1 H2 H3 H4)) as Hd.
  exists (if closeFails c then "cleanup could not close connecteion"
          else "Unhandled message").
  assert (Hmsg : (if closeFails c then Panicked "cleanup could not close connecteion"
                  else Panicked "Unhandled message")
                 = Panicked (if closeFails c then "cleanup could not close connecteion"
                             else "Unhandled message")) by by destruct (closeFails c).
  rewrite Hmsg in Hd. rewrite Hd. split; [done|]. split.
  - intros c' Hne. cbn [withEnded exits]. by rewrite lookup_insert_ne.
  - intros evs Hall. by apply serve_withEnded.
Qed.

(** C6, as the code has it.  When the generator reports exhaustion during a
    [requestChannelId] request, the handler panics: it sends no frame, the
    deferred function closes the requester's connection and the requester's
    handler ends with a panic; the registry is unchanged and the handlers of
    the other connections are as before. *)
Theorem exhaustion_panics_requester ws data w :
  Command data = "requestChannelId" →
  (generateChannelId draw (connections w) (rngPos w)).1.2 = true →
  exits w !! ws = None →
  let w' := deliver draw closeFails ws (Decoded data) w in
  emitted w w' = []
  ∧ connections w' = connections w
  ∧ ws ∈ closed w'
  ∧ (∃ msg, exits w' !! ws = Some (Panicked msg))
  ∧ (∀ c, c ≠ ws → exits w' !! c = exits w !! c).
Proof.
  intros Hcmd Hgen Hrun w'. subst w'.
  pose proof (switchCommand_request ws data w Hcmd) as Hsw.
  destruct (generateChannelId draw (connections w) (rngPos w)) as [[id err] pos'].
  cbn [fst snd] in Hgen. subst err.
  rewrite (deliver_stop ws (Decoded data) w _ _ Hrun Hsw).
  cbn [withEnded setRngPos connections sent closed exits].
  split; [unfold emitted; cbn [sent]; apply drop_all|].
  split; [done|]. split; [apply elem_of_union_l; by apply elem_of_singleton|]. split.
  - rewrite lookup_insert_eq. destruct (closeFails ws); by eexists.
  - intros c Hne. by rewrite lookup_insert_ne.
Qed.

End Handler.

(** * The properties at concrete inputs *)

(** C1 as stated fails, in two ways.  Connection 1 sends [connectChannel]
    for WXYZ twice, so the member list of WXYZ is [1; 1].  Connection 2 then
    sends a [send] message for WXYZ with the data hello, and after it a
    [send] message for WXYZ that has no data field.  The second message is
    delivered to connection 1 twice, not once, and what is delivered is not
    the message that was sent: it has the data hello, left in the request
    variable by the message before. *)
Lemma send_twice_and_with_stale_field :
  let w := serve drawZero closeOk
             [(1, Decoded (reqConnect "WXYZ")); (1, Decoded (reqConnect "WXYZ"))]
             initWorld in
  let m1 := mkMessage (Some "send") (Some "WXYZ") (Some "hello") in
  let m2 := mkMessage (Some "send") (Some "WXYZ") None in
  let start := mkRequest "" "" "" in
  let w1 := (iteration drawZero 2 (receive (Arrived m1) start).1 w).1 in
  let prev := (receive (Arrived m1) start).2 in
  let out := iteration drawZero 2 (receive (Arrived m2) prev).1 w1 in
  let forwarded := mkRequest "send" "WXYZ" "hello" in
  msgCmd m2 = Some "send"
  ∧ members "WXYZ" (connections w1) = [1; 1]
  ∧ 1 ≠ 2
  ∧ emitted w1 out.1 = [(1, FRequest forwarded); (1, FRequest forwarded)]
  ∧ ¬ (deliveries 1 (FRequest forwarded) (emitted w1 out.1) = 1)
  ∧ msgData m2 = None
  ∧ fullMessage forwarded ≠ m2
  ∧ emitted w (WsHandlerFrames drawZero closeOk 2 [Arrived m1; Arrived m2] w).1
    = [(1, FRequest forwarded); (1, FRequest forwarded);
       (1, FRequest forwarded); (1, FRequest forwarded)].
Proof.
  intros w m1 m2 start w1 prev out forwarded.
  split; [reflexivity|]. split; [vm_compute; reflexivity|].
  split; [discriminate|]. split; [vm_compute; reflexivity|].
  split; [vm_compute; discriminate|]. split; [reflexivity|].
  split; [discriminate|]. vm_compute. reflexivity.
Qed.

Lemma send_forwards_request_variable_witness :
  let w := mkWorld {["WXYZ" := [1; 2; 3; 3]]} 0 [] ∅ ∅ in
  let prev := mkRequest "connectChannel" "WXYZ" "old" in
  let m := mkMessage (Some "send") None (Some "hello") in
  let data := mkRequest "send" "WXYZ" "hello" in
  let out := iteration drawZero 2 (receive (Arrived m) prev).1 w in
  msgCmd m = Some "send"
  ∧ unmarshal m prev = data
  ∧ deliveries 1 (FRequest data) (emitted w out.1) = 1
  ∧ deliveries 3 (FRequest data) (emitted w out.1) = 2
  ∧ deliveries 2 (FRequest data) (emitted w out.1) = 0.
Proof.
  intros w prev m data out.
  assert (Hm : msgCmd m = Some "send") by reflexivity.
  destruct (send_forwards_request_variable drawZero 2 prev m w Hm)
    as (_ & _ & Hcount & _ & Hself & _).
  split; [exact Hm|]. split; [reflexivity|]. split; [|split].
  - etrans; [apply (Hcount 1); discriminate | vm_compute; reflexivity].
  - etrans; [apply (Hcount 3); discriminate | vm_compute; reflexivity].
  - apply Hself.
Defined.

Lemma send_unregistered_noop_witness :
  let w := mkWorld {["WXYZ" := [1]]} 0 [] ∅ ∅ in
  let data := reqSend "QRST" "hello" in
  Command data = "send"
  ∧ connections w !! Channel data = None
  ∧ iteration drawZero 2 (Decoded data) w = (w, Continue).
Proof.
  intros w data.
  assert (Hcmd : Command data = "send") by reflexivity.
  assert (Hnone : connections w !! Channel data = None) by (vm_compute; reflexivity).
  split; [exact Hcmd|]. split; [exact Hnone|].
  exact (send_unregistered_noop drawZero 2 data w Hcmd Hnone).
Defined.

Lemma send_recipients_from_member_list_witness :
  let w := mkWorld {["WXYZ" := [1; 3]]} 0 [] ∅ ∅ in
  let data := reqSend "WXYZ" "hello" in
  Command data = "send"
  ∧ emitted w (iteration drawZero 2 (Decoded data) w).1
    = [(1, FRequest data); (3, FRequest data)].
Proof.
  intros w data.
  assert (Hcmd : Command data = "send") by reflexivity.
  split; [exact Hcmd|].
  destruct (send_recipients_from_member_list drawZero 2 data w Hcmd) as (Hem & _).
  rewrite Hem. vm_compute. reflexivity.
Defined.



Lemma requestChannelId_registers_and_replies_witness :
  let data := reqRequestChannelId in
  Command data = "requestChannelId"
  ∧ generateChannelId drawSevens (connections initWorld) (rngPos initWorld)
    = ("AHOV", false, 4)
  ∧ iteration drawSevens 1 (Decoded data) initWorld
    = (mkWorld {["AHOV" := []]} 4
         [(1, FResponse (mkRequestChannelIdResponse "AHOV"))] ∅ ∅,
       Continue).
Proof.
  intros data.
  assert (Hcmd : Command data = "requestChannelId") by reflexivity.
  assert (Hgen : generateChannelId drawSevens (connections initWorld) (rngPos initWorld)
                 = ("AHOV", false, 4)) by (vm_compute; reflexivity).
  split; [exact Hcmd|]. split; [exact Hgen|].
  exact (proj1 (requestChannelId_registers_and_replies drawSevens 1 data initWorld
                  "AHOV" 4 Hcmd Hgen)).
Defined.

Lemma unknown_command_ends_only_offender_witness :
  let w := mkWorld {["WXYZ" := [1; 2]]} 0 [] ∅ ∅ in
  let data := mkRequest "bogus" "" "" in
  (Command data ≠ "" ∧ Command data ≠ "requestChannelId"
   ∧ Command data ≠ "connectChannel" ∧ Command data ≠ "send")
  ∧ exits w !! 2 = None
  ∧ ∃ msg,
      deliver drawZero closeOk 2 (Decoded data) w = withEnded 2 (Panicked msg) w
      ∧ serve drawZero closeOk [(1, Decoded (reqSend "WXYZ" "hello"))]
          (deliver drawZero closeOk 2 (Decoded data) w)
        = withEnded 2 (Panicked msg)
            (serve drawZero closeOk [(1, Decoded (reqSend "WXYZ" "hello"))] w).
Proof.
  intros w data.
  assert (H1 : Command data ≠ "") by discriminate.
  assert (H2 : Command data ≠ "requestChannelId") by discriminate.
  assert (H3 : Command data ≠ "connectChannel") by discriminate.
  assert (H4 : Command data ≠ "send") by discriminate.
  assert (Hrun : exits w !! 2 = None) by reflexivity.
  split; [done|]. split; [exact Hrun|].
  destruct (unknown_command_ends_only_offender drawZero closeOk 2 data w
              H1 H2 H3 H4 Hrun) as (msg & Hd & _ & Hlater).
  exists msg. split; [exact Hd|]. apply Hlater.
  repeat constructor. discriminate.
Defined.

(** C6 as stated fails: every draw is 0 and AAAA is registered by a first
    request, so a second [requestChannelId] exhausts the 20 tries; the
    requester gets no frame and its handler has ended with a panic. *)
Lemma exhaustion_sends_nothing_and_panics :
  let w := serve drawZero closeOk [(1, Decoded reqRequestChannelId)] initWorld in
  let data := reqRequestChannelId in
  let w' := deliver drawZero closeOk 1 (Decoded data) w in
  (generateChannelId drawZero (connections w) (rngPos w)).1 = ("", true)
  ∧ exits w !! 1 = None
  ∧ emitted w w' = []
  ∧ exits w' !! 1 = Some (Panicked "could not generate channel id")
  ∧ ¬ ((∃ f, (1, f) ∈ emitted w w') ∧ exits w' !! 1 = None).
Proof.
  intros w data w'.
  assert (Hem : emitted w w' = []) by (vm_compute; reflexivity).
  assert (Hex : exits w' !! 1 = Some (Panicked "could not generate channel id"))
    by (vm_compute; reflexivity).
  split; [vm_compute; reflexivity|]. split; [vm_compute; reflexivity|].
  split; [exact Hem|]. split; [exact Hex|].
  intros [_ Hnone]. rewrite Hex in Hnone. discriminate.
Qed.

Lemma exhaustion_panics_requester_witness :
  let w := mkWorld {["AAAA" := []]} 4 [] ∅ ∅ in
  let data := reqRequestChannelId in
  let w' := deliver drawZero closeOk 1 (Decoded data) w in
  Command data = "requestChannelId"
  ∧ (generateChannelId drawZero (connections w) (rngPos w)).1.2 = true
  ∧ exits w !! 1 = None
  ∧ emitted w w' = [] ∧ connections w' = connections w ∧ 1 ∈ closed w'.
Proof.
  intros w data w'.
  assert (Hcmd : Command data = "requestChannelId") by reflexivity.
  assert (Hgen : (generateChannelId drawZero (connections w) (rngPos w)).1.2 = true)
    by (vm_compute; reflexivity).
  assert (Hrun : exits w !! 1 = None) by reflexivity.
  destruct (exhaustion_panics_requester drawZero closeOk 1 data w Hcmd Hgen Hrun)
    as (Hem & Hconn & Hcl & _).
  split; [exact Hcmd|]. split; [exact Hgen|]. split; [exact Hrun|].
  split; [exact Hem|]. split; [exact Hconn | exact Hcl].
Defined.

(** C3 fails on the code.  Connection 1 joins WXYZ and disconnects: the
    handler returns and its deferred function closes the connection, and
    the member list of WXYZ is [1] as before.  The same holds when the
    handler ends by a panic. *)
Theorem cleanup_leaves_member_listed :
  WsHandler drawZero closeOk 1 [Decoded (reqConnect "WXYZ"); EOF] initWorld
  = (mkWorld {["WXYZ" := [1]]} 0 [] {[1]} ∅, Some Returned)
  ∧ WsHandler drawZero closeOk 1
      [Decoded (reqConnect "WXYZ"); Decoded (mkRequest "bogus" "" "")] initWorld
    = (mkWorld {["WXYZ" := [1]]} 0 [] {[1]} ∅, Some (Panicked "Unhandled message"))
  ∧ 1 ∈ members "WXYZ" {["WXYZ" := [1]]}.
Proof.
  split; [vm_compute; reflexivity|]. split; [vm_compute; reflexivity|].
  apply (bool_decide_unpack _). vm_compute. exact I.
Qed.

(** C4 fails on the code.  Connection 1 joins AAAA and then BBBB: it is
    added to the member list of BBBB, and the member list of AAAA keeps it,
    so it is a member of two channels. *)
Theorem connectChannel_keeps_previous_channel :
  let w := serve drawZero closeOk
             [(1, Decoded (reqConnect "AAAA")); (1, Decoded (reqConnect "BBBB"))]
             initWorld in
  connections w = <["BBBB" := [1]]> {["AAAA" := [1]]}
  ∧ 1 ∈ members "AAAA" (connections w)
  ∧ 1 ∈ members "BBBB" (connections w)
  ∧ channelsOf 1 (connections w) = {["AAAA"; "BBBB"]}.
Proof.
  intros w. split; [vm_compute; reflexivity|].
  split; [apply (bool_decide_unpack _); vm_compute; exact I|].
  split; [apply (bool_decide_unpack _); vm_compute; exact I|].
  apply (bool_decide_unpack _). vm_compute. exact I.
Qed.

(** * Further properties of the generator and the handler *)

(** ** generateChannelId *)

Lemma letterAt_code k :
  k < String.length letters → nat_of_ascii (letterAt k) = 65 + k.
Proof.
  intros Hk.
  assert (Hall : forallb (λ i, nat_of_ascii (letterAt i) =? 65 + i)
                   (seq 0 (String.length letters)) = true)
    by (vm_compute; reflexivity).
  rewrite forallb_forall in Hall. apply Nat.eqb_eq, Hall, in_seq. lia.
Qed.

Lemma letterAt_inj i j :
  i < String.length letters → j < String.length letters →
  letterAt i = letterAt j → i = j.
Proof.
  intros Hi Hj Heq. apply (f_equal nat_of_ascii) in Heq.
  rewrite !letterAt_code in Heq by done. lia.
Qed.

Lemma string_of_list_ascii_inj (l1 l2 : list ascii) :
  string_of_list_ascii l1 = string_of_list_ascii l2 → l1 = l2.
Proof.
  intros Heq. apply (f_equal list_ascii_of_string) in Heq.
  by rewrite !list_ascii_of_string_of_list_ascii in Heq.
Qed.

Section GeneratorMore.
Variable draw : nat → nat.

Lemma fillId_fst n pos :
  (fillId draw n pos).1
  = (λ i, letterAt (draw (pos + i) mod String.length letters)) <$> seq 0 n.
Proof.
  revert pos. induction n as [|n IH]; intros pos; [done|].
  cbn [fillId Intn]. specialize (IH (S pos)).
  destruct (fillId draw n (S pos)) as [rest pos2]. cbn [fst] in *.
  rewrite IH. cbn [seq]. rewrite fmap_cons, Nat.add_0_r. f_equal.
  rewrite <- fmap_S_seq, <- list_fmap_compose.
  apply list_fmap_ext. intros _ i _. simpl. by rewrite Nat.add_succ_r.
Qed.

(** The result of [generateChannelId] depends on the registry only through
    the set of registered codes: the member lists play no part. *)
Theorem generateChannelId_reads_keys_only (m1 m2 : gmap string (list Conn)) pos :
  dom m1 = dom m2 →
  generateChannelId draw m1 pos = generateChannelId draw m2 pos.
Proof.
  intros Hdom. unfold generateChannelId. generalize generateMaxTries. intros tries.
  revert pos. induction tries as [|t IH]; intros pos; [done|].
  cbn [generateTries]. destruct (fillId draw generateChannelIdLength pos) as [id pos1].
  assert (Hsame : m1 !! string_of_list_ascii id = None
                  ↔ m2 !! string_of_list_ascii id = None)
    by (by rewrite <- !not_elem_of_dom, Hdom).
  destruct (m1 !! string_of_list_ascii id) as [l1|] eqn:H1,
           (m2 !! string_of_list_ascii id) as [l2|] eqn:H2.
  - apply IH.
  - discriminate (proj2 Hsame eq_refl).
  - discriminate (proj1 Hsame eq_refl).
  - reflexivity.
Qed.

End GeneratorMore.

(** The alphabet has no letter twice, so a code fixes the four numbers it was
    drawn from, modulo 26: two passes draw the same code exactly when their
    draws agree modulo the length of the alphabet, position by position. *)
Theorem candidate_eq_iff (draw draw' : nat → nat) pos pos' :
  candidate draw pos = candidate draw' pos'
  ↔ ∀ i, i < generateChannelIdLength →
      draw (pos + i) mod String.length letters
      = draw' (pos' + i) mod String.length letters.
Proof.
  unfold candidate. rewrite !fillId_fst. split.
  - intros Heq%string_of_list_ascii_inj i Hi.
    assert (Hlt : ∀ d p, d (p + i) mod String.length letters < String.length letters)
      by (intros; apply Nat.mod_upper_bound; discriminate).
    apply letterAt_inj; [apply Hlt..|].
    unfold generateChannelIdLength in *. cbn [seq fmap list_fmap] in Heq.
    injection Heq as H0 H1 H2 H3.
    destruct i as [|[|[|[|i]]]]; [done..|lia].
  - intros Hall. f_equal. apply list_fmap_ext. intros _ i Hi%list_elem_of_lookup_2.
    apply elem_of_seq in Hi. cbn beta. rewrite Hall; [done|lia].
Qed.

(** ** One pass of the handler's loop *)

Lemma command_cases (s : string) :
  s = "" ∨ s = "requestChannelId" ∨ s = "connectChannel" ∨ s = "send"
  ∨ (s ≠ "" ∧ s ≠ "requestChannelId" ∧ s ≠ "connectChannel" ∧ s ≠ "send").
Proof.
  destruct (decide (s = "")); [by left|].
  destruct (decide (s = "requestChannelId")); [by right; left|].
  destruct (decide (s = "connectChannel")); [by right; right; left|].
  destruct (decide (s = "send")); [by right; right; right; left|].
  by right; right; right; right.
Qed.

Section HandlerMore.
Variable draw : nat → nat.
Variable closeFails : Conn → bool.

(** The loop goes on to the next [Receive] exactly when the call gave a
    request whose command is empty, [connectChannel], [send], or
    [requestChannelId] with the generator returning a code; every other
    result of [Receive] and every other command ends the handler. *)
Theorem iteration_continues_iff ws r w :
  (iteration draw ws r w).2 = Continue
  ↔ ∃ data, r = Decoded data
      ∧ (Command data = "" ∨ Command data = "connectChannel" ∨ Command data = "send"
         ∨ (Command data = "requestChannelId"
            ∧ (generateChannelId draw (connections w) (rngPos w)).1.2 = false)).
Proof.
  destruct r as [data| |e]; cbn [iteration].
  2,3: split; [discriminate | by intros (data & [=] & _)].
  destruct (command_cases (Command data)) as [H|[H|[H|[H|(H1 & H2 & H3 & H4)]]]].
  - rewrite (switchCommand_empty _ _ _ _ H). split; [|done].
    intros _. exists data. split; [done|]. by left.
  - rewrite (switchCommand_request _ _ _ _ H).
    destruct (generateChannelId draw (connections w) (rngPos w)) as [[id err] pos'].
    cbn [fst snd]. destruct err; cbn [snd].
    + split; [discriminate|]. intros (d & [= <-] & Hd). rewrite H in Hd.
      destruct Hd as [Hd|[Hd|[Hd|[_ Hd]]]]; discriminate.
    + split; [|done]. intros _. exists data. split; [done|]. by right; right; right.
  - rewrite (switchCommand_connect _ _ _ _ H). split; [|done].
    intros _. exists data. split; [done|]. by right; left.
  - rewrite (switchCommand_send _ _ _ _ H). split; [|done].
    intros _. exists data. split; [done|]. by right; right; left.
  - rewrite (switchCommand_unknown _ _ _ _ H1 H2 H3 H4). split; [discriminate|].
    intros (d & [= <-] & Hd). destruct Hd as [Hd|[Hd|[Hd|[Hd _]]]]; done.
Qed.

(** A [send] request reaches every connection other than the sender as many
    times as the connection occurs in the member list of the named channel,
    and the sender never; a connection listed twice gets the request twice. *)
Theorem send_deliveries_count ws data w c :
  Command data = "send" →
  deliveries c (FRequest data) (emitted w (iteration draw ws (Decoded data) w).1)
  = if decide (c = ws) then 0
    else occurrences c (members (Channel data) (connections w)).
Proof.
  intros Hcmd. cbn [iteration]. rewrite (switchCommand_send _ _ _ _ Hcmd).
  unfold emitted; cbn [fst sent]; rewrite drop_app_length.
  apply deliveries_forward.
Qed.

(** ** A run of the handler *)

Lemma iteration_closed ws r w : closed (iteration draw ws r w).1 = closed w.
Proof.
  destruct r as [data| |e]; [|done..]. cbn [iteration].
  destruct (command_cases (Command data)) as [H|[H|[H|[H|(H1 & H2 & H3 & H4)]]]].
  - by rewrite (switchCommand_empty _ _ _ _ H).
  - rewrite (switchCommand_request _ _ _ _ H).
    destruct (generateChannelId draw (connections w) (rngPos w)) as [[id err] pos'].
    by destruct err.
  - by rewrite (switchCommand_connect _ _ _ _ H).
  - by rewrite (switchCommand_send _ _ _ _ H).
  - by rewrite (switchCommand_unknown _ _ _ _ H1 H2 H3 H4).
Qed.

(** The handler closes its own connection, and no other, exactly when it
    ends: while it waits in [Receive] the set of closed connections is as it
    was, and on every way out (return or panic) the connection is added. *)
Theorem WsHandler_closes_exactly_on_exit ws inputs w :
  closed (WsHandler draw closeFails ws inputs w).1
  = match (WsHandler draw closeFails ws inputs w).2 with
    | None => closed w
    | Some _ => {[ws]} ∪ closed w
    end.
Proof.
  revert w. induction inputs as [|r rest IH]; intros w; [done|].
  cbn [WsHandler]. pose proof (iteration_closed ws r w) as Hcl.
  destruct (iteration draw ws r w) as [w1 [|e]]; cbn [fst] in Hcl.
  - rewrite IH, Hcl. done.
  - unfold cleanup. destruct (closeFails ws); cbn [fst snd closed]; by rewrite Hcl.
Qed.

Lemma iteration_stop_returned ws r w :
  (iteration draw ws r w).2 = Stop Returned ↔ r = EOF.
Proof.
  destruct r as [data| |e]; cbn [iteration]; [|done..].
  split; [|discriminate].
  destruct (command_cases (Command data)) as [H|[H|[H|[H|(H1 & H2 & H3 & H4)]]]].
  - by rewrite (switchCommand_empty _ _ _ _ H).
  - rewrite (switchCommand_request _ _ _ _ H).
    destruct (generateChannelId draw (connections w) (rngPos w)) as [[id err] pos'].
    by destruct err.
  - by rewrite (switchCommand_connect _ _ _ _ H).
  - by rewrite (switchCommand_send _ _ _ _ H).
  - by rewrite (switchCommand_unknown _ _ _ _ H1 H2 H3 H4).
Qed.

(** Why a run that has ended ended.  The inputs before some input [r] were
    all handled with the loop going on, and [r] is the one that ended it:
    [io.EOF], a receive error, a [requestChannelId] request on which the
    generator reported exhaustion, or a request with an unknown command.
    The run returned normally exactly when [r] is [io.EOF] and [ws.Close()]
    reported no error; in every other case it ended with a panic. *)
Theorem WsHandler_exit_causes ws inputs w w' e :
  WsHandler draw closeFails ws inputs w = (w', Some e) →
  ∃ l1 r l2 w1,
    inputs = l1 ++ r :: l2
    ∧ WsHandler draw closeFails ws l1 w = (w1, None)
    ∧ match r with
      | EOF | RecvError _ => True
      | Decoded data =>
          (Command data = "requestChannelId"
           ∧ (generateChannelId draw (connections w1) (rngPos w1)).1.2 = true)
          ∨ (Command data ≠ "" ∧ Command data ≠ "requestChannelId"
             ∧ Command data ≠ "connectChannel" ∧ Command data ≠ "send")
      end
    ∧ (e = Returned ↔ r = EOF ∧ closeFails ws = false).
Proof.
  revert w. induction inputs as [|r rest IH]; intros w Hrun; [done|].
  cbn [WsHandler] in Hrun.
  destruct (iteration draw ws r w) as [v [|e1]] eqn:Hit.
  - destruct (IH _ Hrun) as (l1 & r' & l2 & w1 & -> & Hl1 & Hcause & Hret).
    exists (r :: l1), r', l2, w1. split; [done|]. split; [|done].
    cbn [WsHandler]. by rewrite Hit.
  - exists [], r, rest, w. split; [done|]. split; [done|]. split.
    + destruct r as [data| |msg]; [|done..]. cbn [iteration] in Hit.
      destruct (command_cases (Command data)) as [H|[H|[H|[H|(H1 & H2 & H3 & H4)]]]].
      * by rewrite (switchCommand_empty _ _ _ _ H) in Hit.
      * rewrite (switchCommand_request _ _ _ _ H) in Hit. left. split; [done|].
        destruct (generateChannelId draw (connections w) (rngPos w)) as [[id err] pos'].
        by destruct err.
      * by rewrite (switchCommand_connect _ _ _ _ H) in Hit.
      * by rewrite (switchCommand_send _ _ _ _ H) in Hit.
      * by right.
    + pose proof (iteration_stop_returned ws r w) as Hsr. rewrite Hit in Hsr.
      cbn [snd] in Hsr. unfold cleanup in Hrun.
      destruct (closeFails ws); injection Hrun as _ <-.
      * split; [discriminate | by intros [_ ?]].
      * split.
        -- intros ->. split; [by apply Hsr | done].
        -- intros [Hr _]. apply Hsr in Hr. by injection Hr.
Qed.

End HandlerMore.

Lemma handedOut_requests data (l : list Conn) :
  handedOut ((λ x, (x, FRequest data)) <$> l) = [].
Proof. induction l as [|x l IH]; [done|]. exact IH. Qed.

Section ServeMore.
Variable draw : nat → nat.
Variable closeFails : Conn → bool.

Lemma iteration_effect c r w : StepEffect c r w (iteration draw c r w).1.
Proof.
  destruct r as [data| |e]; [|by apply step_nothing..]. cbn [iteration].
  destruct (command_cases (Command data)) as [H|[H|[H|[H|(H1 & H2 & H3 & H4)]]]].
  - rewrite (switchCommand_empty _ _ _ _ H). by apply step_nothing.
  - rewrite (switchCommand_request _ _ _ _ H).
    destruct (generateChannelId draw (connections w) (rngPos w))
      as [[id err] pos'] eqn:Hgen.
    destruct err; [by apply step_nothing|].
    destruct (generateChannelId_ok _ _ _ _ _ Hgen) as (Hnone & Hlen & Hup).
    by eapply step_request.
  - rewrite (switchCommand_connect _ _ _ _ H). by eapply step_connect.
  - rewrite (switchCommand_send _ _ _ _ H). by eapply step_send.
  - rewrite (switchCommand_unknown _ _ _ _ H1 H2 H3 H4). by apply step_nothing.
Qed.

Lemma deliver_effect c r w : StepEffect c r w (deliver draw closeFails c r w).
Proof.
  unfold deliver. destruct (exits w !! c); [by apply step_nothing|].
  pose proof (iteration_effect c r w) as Heff.
  destruct (iteration draw c r w) as [v [|e]]; cbn [fst] in Heff; [done|].
  assert (Hsame : ∀ u, connections (setExit c (cleanup closeFails c e v).2 u)
                       = connections u) by done.
  unfold cleanup. destruct (closeFails c); cbn [fst snd];
    (destruct Heff as [Hc Hs|d code Hr Hcmd Hn Hl Hu Hc Hs|d Hr Hcmd Hc Hs|d Hr Hcmd Hc Hs];
     [ by apply step_nothing | by eapply step_request
     | by eapply step_connect | by eapply step_send ]).
Qed.

Lemma deliver_sent_grows c r w :
  ∃ l, sent (deliver draw closeFails c r w) = sent w ++ l.
Proof.
  destruct (deliver_effect c r w)
    as [Hc Hs|d code' Hr Hcmd Hn _ _ Hc Hs|d Hr Hcmd Hc Hs|d Hr Hcmd Hc Hs];
    rewrite Hs; eauto. exists []. by rewrite app_nil_r. exists []. by rewrite app_nil_r.
Qed.

Lemma serve_sent_grows evs w :
  sent (serve draw closeFails evs w) = sent w ++ emitted w (serve draw closeFails evs w).
Proof.
  assert (Hex : ∃ l, sent (serve draw closeFails evs w) = sent w ++ l).
  { revert w. induction evs as [|[c r] evs IH]; intros w.
    - exists []. by rewrite app_nil_r.
    - rewrite serve_cons. destruct (deliver_sent_grows c r w) as (l1 & Hl1).
      destruct (IH (deliver draw closeFails c r w)) as (l2 & Hl2).
      exists (l1 ++ l2). by rewrite Hl2, Hl1, app_assoc. }
  destruct Hex as (l & Hl). unfold emitted. by rewrite Hl, drop_app_length.
Qed.

Lemma emitted_cons c r evs w :
  emitted w (serve draw closeFails ((c, r) :: evs) w)
  = emitted w (deliver draw closeFails c r w)
    ++ emitted (deliver draw closeFails c r w)
         (serve draw closeFails evs (deliver draw closeFails c r w)).
Proof.
  rewrite serve_cons. destruct (deliver_sent_grows c r w) as (l1 & Hl1).
  pose proof (serve_sent_grows evs (deliver draw closeFails c r w)) as Hl2.
  unfold emitted at 1 2. rewrite Hl2, Hl1, <- app_assoc, !drop_app_length. done.
Qed.


(** A channel-id response goes to a connection that asked.  Every response
    frame sent during a run of the server was sent to a connection that sent
    a [requestChannelId] request during that run. *)
Theorem response_to_requester_only evs w c rsp :
  (c, FResponse rsp) ∈ emitted w (serve draw closeFails evs w) →
  ∃ d, (c, Decoded d) ∈ evs ∧ Command d = "requestChannelId".
Proof.
  revert w. induction evs as [|[c0 r] evs IH]; intros w Hin.
  - unfold emitted in Hin. cbn [serve foldl] in Hin. rewrite drop_all in Hin.
    by apply elem_of_nil in Hin.
  - rewrite emitted_cons in Hin. apply elem_of_app in Hin as [Hin|Hin].
    + unfold emitted in Hin.
      destruct (deliver_effect c0 r w)
        as [Hc Hs|d' code' Hr Hcmd Hn _ _ Hc Hs|d' Hr Hcmd Hc Hs|d' Hr Hcmd Hc Hs];
        rewrite Hs in Hin; rewrite ?drop_all, ?drop_app_length in Hin.
      * by apply elem_of_nil in Hin.
      * apply list_elem_of_singleton in Hin as [= -> _].
        exists d'. subst r. split; [apply list_elem_of_here | done].
      * by apply elem_of_nil in Hin.
      * by apply list_elem_of_fmap in Hin as (x & [=] & _).
    + destruct (IH _ Hin) as (d & Hd & Hcmd).
      exists d. split; [by apply list_elem_of_further | done].
Qed.

Lemma occurrences_snoc (c x : Conn) (l : list Conn) :
  occurrences c (l ++ [x]) = occurrences c l + (if decide (x = c) then 1 else 0).
Proof.
  unfold occurrences. rewrite filter_app, length_app, filter_cons.
  by destruct (decide (x = c)).
Qed.

(** ** One handler running alone

    What follows is about one run of the handler with no other handler
    running during it: the function [WsHandler] by itself. *)

Lemma iteration_registry_grows c r w code l :
  connections w !! code = Some l →
  ∃ l', connections (iteration draw c r w).1 !! code = Some (l ++ l').
Proof.
  intros Hl.
  destruct (iteration_effect c r w)
    as [Hc Hs|d code' Hr Hcmd Hn _ _ Hc Hs|d Hr Hcmd Hc Hs|d Hr Hcmd Hc Hs];
    rewrite Hc.
  - exists []. by rewrite app_nil_r.
  - exists []. rewrite app_nil_r, lookup_insert_ne; [done|]. congruence.
  - destruct (decide (Channel d = code)) as [<-|Hne].
    + exists [c]. rewrite lookup_insert_eq. unfold members. by rewrite Hl.
    + exists []. by rewrite app_nil_r, lookup_insert_ne.
  - exists []. by rewrite app_nil_r.
Qed.

(** The first pass of a run: the loop goes on and the run is the run on the
    remaining inputs, or the run ends there with the registry and the sent
    frames as the pass left them. *)
Lemma WsHandler_first ws r rest w :
  ((iteration draw ws r w).2 = Continue
   ∧ WsHandler draw closeFails ws (r :: rest) w
     = WsHandler draw closeFails ws rest (iteration draw ws r w).1)
  ∨ ((iteration draw ws r w).2 ≠ Continue
     ∧ connections (WsHandler draw closeFails ws (r :: rest) w).1
       = connections (iteration draw ws r w).1
     ∧ sent (WsHandler draw closeFails ws (r :: rest) w).1
       = sent (iteration draw ws r w).1
     ∧ is_Some (WsHandler draw closeFails ws (r :: rest) w).2).
Proof.
  cbn [WsHandler]. destruct (iteration draw ws r w) as [v [|e]]; cbn [fst snd].
  - by left.
  - right. split; [done|]. unfold cleanup. by destruct (closeFails ws).
Qed.

Lemma WsHandler_registry_extends ws inputs w code l :
  connections w !! code = Some l →
  ∃ l', connections (WsHandler draw closeFails ws inputs w).1 !! code = Some (l ++ l').
Proof.
  revert w l. induction inputs as [|r rest IH]; intros w l Hl.
  - exists []. by rewrite app_nil_r.
  - destruct (iteration_registry_grows ws r w code l Hl) as (l1 & Hl1).
    destruct (WsHandler_first ws r rest w) as [[_ ->]|(_ & -> & _)].
    + destruct (IH _ _ Hl1) as (l2 & Hl2). exists (l1 ++ l2). by rewrite app_assoc.
    + by exists l1.
Qed.

(** One handler running alone never shrinks the registry: a code that is
    registered stays registered and its member list keeps every entry it
    has, in place, later entries being added at the end; neither a request
    nor the return or panic of the handler removes a code or a member. *)
Theorem WsHandler_registry_grows ws inputs w code l :
  connections w !! code = Some l →
  ∃ l', connections (WsHandler draw closeFails ws inputs w).1 !! code = Some (l ++ l').
Proof. apply WsHandler_registry_extends. Qed.

Lemma iteration_sent_grows c r w :
  ∃ l, sent (iteration draw c r w).1 = sent w ++ l.
Proof.
  destruct (iteration_effect c r w)
    as [Hc Hs|d code' Hr Hcmd Hn _ _ Hc Hs|d Hr Hcmd Hc Hs|d Hr Hcmd Hc Hs];
    rewrite Hs; eauto; exists []; by rewrite app_nil_r.
Qed.

Lemma WsHandler_sent_grows ws inputs w :
  sent (WsHandler draw closeFails ws inputs w).1
  = sent w ++ emitted w (WsHandler draw closeFails ws inputs w).1.
Proof.
  assert (Hex : ∃ l, sent (WsHandler draw closeFails ws inputs w).1 = sent w ++ l).
  { revert w. induction inputs as [|r rest IH]; intros w.
    - exists []. by rewrite app_nil_r.
    - destruct (iteration_sent_grows ws r w) as (l1 & Hl1).
      destruct (WsHandler_first ws r rest w) as [[_ ->]|(_ & _ & -> & _)].
      + destruct (IH (iteration draw ws r w).1) as (l2 & Hl2).
        exists (l1 ++ l2). by rewrite Hl2, Hl1, app_assoc.
      + by exists l1. }
  destruct Hex as (l & Hl). unfold emitted. by rewrite Hl, drop_app_length.
Qed.

(** One handler running alone never hands out a code twice: the codes of
    the channel-id responses it sends during its run are pairwise distinct,
    none of them was registered when the run began, and each is registered
    when it ends and is 4 uppercase letters. *)
Theorem WsHandler_codes_distinct ws inputs w :
  let w' := (WsHandler draw closeFails ws inputs w).1 in
  NoDup (handedOut (emitted w w'))
  ∧ ∀ code, code ∈ handedOut (emitted w w') →
      connections w !! code = None
      ∧ is_Some (connections w' !! code)
      ∧ String.length code = 4
      ∧ Forall (λ a, isUpper a = true ∧ a ∈ list_ascii_of_string letters)
          (list_ascii_of_string code).
Proof.
  cbn zeta. revert w. induction inputs as [|r rest IH]; intros w.
  { unfold emitted. cbn [WsHandler fst]. rewrite drop_all.
    split; [constructor | by intros code Hin%elem_of_nil]. }
  pose proof (iteration_effect ws r w) as Heff.
  destruct (WsHandler_first ws r rest w) as [[_ Hgo]|(_ & Hc & Hs & _)].
  - rewrite Hgo. set (v := (iteration draw ws r w).1) in *.
    destruct (IH v) as [Hnd Hall].
    pose proof (WsHandler_sent_grows ws rest v) as Hsent.
    set (v' := (WsHandler draw closeFails ws rest v).1) in *.
    destruct Heff as [Hcv Hsv|d code' Hr Hcmd Hn Hlen Hup Hcv Hsv|d Hr Hcmd Hcv Hsv
                     |d Hr Hcmd Hcv Hsv].
    + assert (Hem : emitted w v' = emitted v v') by (unfold emitted; by rewrite Hsv).
      rewrite Hem. split; [done|]. intros code Hin.
      destruct (Hall _ Hin) as (Hnone & Hrest). by rewrite <- Hcv.
    + assert (Hem : emitted w v'
                    = (ws, FResponse (mkRequestChannelIdResponse code')) :: emitted v v').
      { unfold emitted at 1. rewrite Hsent, Hsv, <- !app_assoc, drop_app_length. done. }
      rewrite Hem. cbn [handedOut omap responseCode snd ChannelId].
      fold (handedOut (emitted v v')). split.
      * apply NoDup_cons. split; [|done]. intros Hin.
        destruct (Hall _ Hin) as (Hnone & _). by rewrite Hcv, lookup_insert_eq in Hnone.
      * intros code [->|Hin]%elem_of_cons.
        -- split; [done|]. split; [|done].
           destruct (WsHandler_registry_extends ws rest v code' []) as (l' & Hl').
           { by rewrite Hcv, lookup_insert_eq. }
           exists ([] ++ l'). exact Hl'.
        -- destruct (Hall _ Hin) as (Hnone & Hrest). split; [|done].
           rewrite Hcv in Hnone. by apply lookup_insert_None in Hnone as [? _].
    + assert (Hem : emitted w v' = emitted v v') by (unfold emitted; by rewrite Hsv).
      rewrite Hem. split; [done|]. intros code Hin.
      destruct (Hall _ Hin) as (Hnone & Hrest). split; [|done].
      rewrite Hcv in Hnone. by apply lookup_insert_None in Hnone as [? _].
    + assert (Hem : emitted w v'
                    = ((λ x, (x, FRequest d))
                         <$> filter (λ x, x ≠ ws) (members (Channel d) (connections w)))
                      ++ emitted v v').
      { unfold emitted at 1. rewrite Hsent, Hsv, <- !app_assoc, drop_app_length. done. }
      rewrite Hem. unfold handedOut at 1 2. rewrite omap_app.
      fold (handedOut ((λ x, (x, FRequest d))
                         <$> filter (λ x, x ≠ ws) (members (Channel d) (connections w)))).
      fold (handedOut (emitted v v')). rewrite handedOut_requests. cbn [app].
      split; [done|]. intros code Hin.
      destruct (Hall _ Hin) as (Hnone & Hrest). by rewrite <- Hcv.
  - set (v' := (WsHandler draw closeFails ws (r :: rest) w).1) in *.
    destruct Heff as [Hcv Hsv|d code' Hr Hcmd Hn Hlen Hup Hcv Hsv|d Hr Hcmd Hcv Hsv
                     |d Hr Hcmd Hcv Hsv];
      unfold emitted; rewrite Hs, Hsv, ?drop_all, ?drop_app_length.
    + split; [constructor | by intros code Hin%elem_of_nil].
    + cbn [handedOut omap responseCode snd ChannelId]. split; [apply NoDup_singleton|].
      intros code ->%list_elem_of_singleton. split; [done|]. split; [|done].
      rewrite Hc, Hcv, lookup_insert_eq. by eexists.
    + split; [constructor | by intros code Hin%elem_of_nil].
    + rewrite handedOut_requests. split; [constructor | by intros code Hin%elem_of_nil].
Qed.

Lemma isJoinPass_true code r :
  isJoinPass code r = true
  ↔ ∃ d, r = Decoded d ∧ Command d = "connectChannel" ∧ Channel d = code.
Proof.
  destruct r as [d| |e]; unfold isJoinPass.
  - rewrite andb_true_iff, !String.eqb_eq. split.
    + intros [Hcmd Hch]. by exists d.
    + by intros (d' & [= ->] & Hcmd & Hch).
  - split; [discriminate | by intros (d & [=] & _)].
  - split; [discriminate | by intros (d & [=] & _)].
Qed.

(** One handler running alone lists its connection once for every pass in
    which the request variable holds a [connectChannel] request.  When the
    run has handled all its inputs and waits in [Receive], the number of
    times its connection occurs in the member list of a code has grown by
    the number of inputs that left a [connectChannel] request for that code
    in the request variable, also when the connection was listed already;
    the occurrences of every other connection are as before. *)
Theorem WsHandler_join_count ws inputs w (c : Conn) code :
  (WsHandler draw closeFails ws inputs w).2 = None →
  occurrences c (members code (connections (WsHandler draw closeFails ws inputs w).1))
  = occurrences c (members code (connections w))
    + (if decide (c = ws) then joinPasses code inputs else 0).
Proof.
  revert w. induction inputs as [|r rest IH]; intros w Hrun.
  { unfold joinPasses. simpl. destruct (decide (c = ws)); lia. }
  destruct (WsHandler_first ws r rest w) as [[Hgo Heq]|(_ & _ & _ & Hsome)].
  2: { rewrite Hrun in Hsome. by destruct Hsome. }
  rewrite Heq in Hrun |- *. rewrite (IH _ Hrun).
  assert (Hpass : occurrences c (members code (connections (iteration draw ws r w).1))
                  = occurrences c (members code (connections w))
                    + (if decide (c = ws)
                       then (if decide (isJoinPass code r = true) then 1 else 0)
                       else 0)).
  { destruct (decide (isJoinPass code r = true)) as [Hj|Hj].
    - apply isJoinPass_true in Hj as (d & -> & Hcmd & Hch). cbn [iteration].
      rewrite (switchCommand_connect _ _ _ _ Hcmd). cbn [fst setConnections connections].
      rewrite Hch, members_insert_eq, occurrences_snoc.
      destruct (decide (c = ws)) as [->|Hne].
      + by rewrite decide_True.
      + by rewrite decide_False.
    - assert (Hsame : occurrences c (members code (connections (iteration draw ws r w).1))
                      = occurrences c (members code (connections w))).
      { destruct (iteration_effect ws r w)
          as [Hc Hs|d code' Hr Hcmd Hn _ _ Hc Hs|d Hr Hcmd Hc Hs|d Hr Hcmd Hc Hs];
          rewrite Hc; [done| | |done].
        - destruct (decide (code' = code)) as [->|Hne].
          + rewrite members_insert_eq. unfold members. by rewrite Hn.
          + by rewrite members_insert_ne.
        - destruct (decide (Channel d = code)) as [Hch|Hne].
          + exfalso. apply Hj, isJoinPass_true. by exists d.
          + by rewrite members_insert_ne. }
      rewrite Hsame. destruct (decide (c = ws)); lia. }
  rewrite Hpass. unfold joinPasses. rewrite filter_cons.
  destruct (decide (c = ws)); [|lia].
  destruct (decide (isJoinPass code r = true)); cbn [List.length]; lia.
Qed.

End ServeMore.

(** ** The request variable between passes *)

Lemma unmarshal_empty data : unmarshal emptyMessage data = data.
Proof. by destruct data. Qed.

Lemma unmarshal_twice m data : unmarshal m (unmarshal m data) = unmarshal m data.
Proof.
  unfold unmarshal. cbn [Command Channel Data].
  by destruct (msgCmd m), (msgChannel m), (msgData m).
Qed.

(** The loop with its request variable is [WsHandler] on the results of
    its [Receive] calls. *)
Lemma handlerLoop_WsHandler draw closeFails ws data inputs w :
  handlerLoop draw closeFails ws data inputs w
  = WsHandler draw closeFails ws (receiveAll data inputs) w.
Proof.
  revert data w. induction inputs as [|i rest IH]; intros data w; [done|].
  cbn [handlerLoop receiveAll]. destruct (receive i data) as [r data'].
  cbn [WsHandler]. destruct (iteration draw ws r w) as [w1 [|e]]; [apply IH | done].
Qed.

(** The empty message repeats the message before it.  Because the request
    variable keeps the fields a message omits, a message without fields
    that follows a message [m] is handled exactly as [m] sent once more:
    after a [connectChannel] it joins again, after a [send] it forwards the
    same request again.  The two runs of the handler are equal, whatever was
    received before and whatever follows. *)
Theorem empty_message_repeats draw closeFails ws before m after w :
  WsHandlerFrames draw closeFails ws
    (before ++ Arrived m :: Arrived emptyMessage :: after) w
  = WsHandlerFrames draw closeFails ws
      (before ++ Arrived m :: Arrived m :: after) w.
Proof.
  unfold WsHandlerFrames. generalize (mkRequest "" "" ""). intros data.
  revert data w. induction before as [|i l IH]; intros data w.
  - cbn [app handlerLoop receive].
    destruct (iteration draw ws (Decoded (unmarshal m data)) w) as [w1 [|e]]; [|done].
    by rewrite unmarshal_empty, unmarshal_twice.
  - cbn [app handlerLoop]. destruct (receive i data) as [r data'].
    destruct (iteration draw ws r w) as [w1 [|e]]; [apply IH | done].
Qed.

(** ** The further properties at concrete inputs *)

Lemma generateChannelId_reads_keys_only_witness :
  let m1 : gmap string (list Conn) := {["AAAA" := [1; 2]]} in
  let m2 : gmap string (list Conn) := {["AAAA" := []]} in
  dom m1 = dom m2
  ∧ generateChannelId drawZero m1 0 = generateChannelId drawZero m2 0.
Proof.
  intros m1 m2.
  assert (Hdom : dom m1 = dom m2) by (vm_compute; reflexivity).
  split; [exact Hdom|].
  exact (generateChannelId_reads_keys_only drawZero m1 m2 0 Hdom).
Defined.

Lemma send_deliveries_count_witness :
  let w := mkWorld {["WXYZ" := [1; 1; 3]]} 0 [] ∅ ∅ in
  let data := reqSend "WXYZ" "hello" in
  Command data = "send"
  ∧ deliveries 1 (FRequest data) (emitted w (iteration drawZero 2 (Decoded data) w).1) = 2.
Proof.
  intros w data.
  assert (Hcmd : Command data = "send") by reflexivity.
  split; [exact Hcmd|].
  rewrite (send_deliveries_count drawZero 2 data w 1 Hcmd). vm_compute. reflexivity.
Defined.

Lemma WsHandler_exit_causes_witness :
  let inputs := [Decoded (reqConnect "WXYZ"); EOF; Decoded (reqSend "WXYZ" "late")] in
  WsHandler drawZero closeOk 1 inputs initWorld
  = (mkWorld {["WXYZ" := [1]]} 0 [] {[1]} ∅, Some Returned)
  ∧ ∃ l1 r l2, inputs = l1 ++ r :: l2 ∧ r = EOF.
Proof.
  intros inputs.
  assert (Hrun : WsHandler drawZero closeOk 1 inputs initWorld
                 = (mkWorld {["WXYZ" := [1]]} 0 [] {[1]} ∅, Some Returned))
    by (vm_compute; reflexivity).
  split; [exact Hrun|].
  destruct (WsHandler_exit_causes drawZero closeOk 1 inputs initWorld _ Returned Hrun)
    as (l1 & r & l2 & w1 & Heq & _ & _ & Hret).
  exists l1, r, l2. split; [exact Heq|]. by apply Hret.
Defined.

Lemma response_to_requester_only_witness :
  let evs := [(1, Decoded reqRequestChannelId); (2, Decoded (reqConnect "AHOV"))] in
  let rsp := mkRequestChannelIdResponse "AHOV" in
  (1, FResponse rsp) ∈ emitted initWorld (serve drawSevens closeOk evs initWorld)
  ∧ ∃ d, (1, Decoded d) ∈ evs ∧ Command d = "requestChannelId".
Proof.
  intros evs rsp.
  assert (Hin : (1, FResponse rsp)
                ∈ emitted initWorld (serve drawSevens closeOk evs initWorld)).
  { apply (bool_decide_unpack _). vm_compute. exact I. }
  split; [exact Hin|].
  exact (response_to_requester_only drawSevens closeOk evs initWorld 1 rsp Hin).
Defined.


Lemma WsHandler_registry_grows_witness :
  let w := mkWorld {["WXYZ" := [1]]} 0 [] ∅ ∅ in
  let inputs := [Decoded (reqConnect "WXYZ"); Decoded reqRequestChannelId; EOF] in
  connections w !! "WXYZ" = Some [1]
  ∧ ∃ l', connections (WsHandler drawZero closeOk 2 inputs w).1 !! "WXYZ"
          = Some ([1] ++ l').
Proof.
  intros w inputs.
  assert (Hl : connections w !! "WXYZ" = Some [1]) by (vm_compute; reflexivity).
  split; [exact Hl|].
  exact (WsHandler_registry_grows drawZero closeOk 2 inputs w "WXYZ" [1] Hl).
Defined.

Lemma WsHandler_join_count_witness :
  let inputs := [Decoded (reqConnect "WXYZ"); Decoded (reqSend "WXYZ" "hello");
                 Decoded (reqConnect "WXYZ")] in
  (WsHandler drawZero closeOk 1 inputs initWorld).2 = None
  ∧ occurrences 1 (members "WXYZ"
                     (connections (WsHandler drawZero closeOk 1 inputs initWorld).1)) = 2.
Proof.
  intros inputs.
  assert (Hrun : (WsHandler drawZero closeOk 1 inputs initWorld).2 = None)
    by (vm_compute; reflexivity).
  split; [exact Hrun|].
  etrans; [apply (WsHandler_join_count drawZero closeOk 1 inputs initWorld 1 "WXYZ" Hrun)|].
  vm_compute. reflexivity.
Defined.
